(** * injection.provide: the [Provide] marker and its subscript constructor

    A shallow embedding of [src/injection/provide.py].  The module defines a
    metaclass [ClassGetItemMeta] whose [__getitem__] instantiates the class
    it is applied to, and a class [Provide] whose [__init__] stores the
    provider it receives in the attribute [provider] and whose [__call__]
    returns [self].

    Python objects have identity and mutable attribute dictionaries, so the
    embedding works over an explicit object store: references are store
    addresses, an object is its type together with its instance dictionary,
    and the methods are programs over the primitive operations Python
    performs on their behalf (allocation, attribute assignment, attribute
    read).  The one operation of the outside world that matters here, a
    provider producing its value, is a primitive too, answered by an
    arbitrary handler; the programs of this module never issue it. *)

From Stdlib Require Import ZArith.
From stdpp Require Import gmap strings.

Open Scope string_scope.

(** ** Values and objects *)

(** References are addresses in the object store. *)
Abbreviation loc := positive.

(** Python values as far as this module can be handed them: a few immediate
    values and references to objects in the store. *)
Inductive value : Type :=
| VNone
| VBool (b : bool)
| VInt (n : Z)
| VStr (s : string)
| VRef (l : loc).

(** The classes created in provide.py with [metaclass=ClassGetItemMeta]. *)
Inductive class : Type :=
| Provide.

(** The type of an object: a class of this module, or a class defined
    elsewhere (providers and anything else a caller may pass). *)
Inductive pytype : Type :=
| Local (c : class)
| Foreign (qualname : string).

(** An object is its type and its instance [__dict__]. *)
Record object : Type := Object {
  ob_type : pytype;
  ob_dict : gmap string value
}.

Inductive exn : Type :=
| AttributeError (name : string)
| ForeignError (qualname : string).

(** ** Programs *)

(** The primitive operations, in continuation style. *)
Inductive prog (A : Type) : Type :=
| Ret (a : A)
| Raise (e : exn)
| New (t : pytype) (k : loc -> prog A)
| SetAttr (l : loc) (name : string) (v : value) (k : prog A)
| GetAttr (l : loc) (name : string) (k : value -> prog A)
| Produce (p : value) (k : value -> prog A).

Arguments Ret {A} a.
Arguments Raise {A} e.
Arguments New {A} t k.
Arguments SetAttr {A} l name v k.
Arguments GetAttr {A} l name k.
Arguments Produce {A} p k.

Fixpoint bind {A B : Type} (m : prog A) (f : A -> prog B) : prog B :=
  match m with
  | Ret a => f a
  | Raise e => Raise e
  | New t k => New t (fun l => bind (k l) f)
  | SetAttr l name v k => SetAttr l name v (bind k f)
  | GetAttr l name k => GetAttr l name (fun v => bind (k v) f)
  | Produce p k => Produce p (fun v => bind (k v) f)
  end.

Declare Scope prog_scope.
Delimit Scope prog_scope with prog.
Notation "x <- m ;; k" := (bind m (fun x => k))
  (at level 100, m at next level, right associativity) : prog_scope.
Notation "m ;; k" := (bind m (fun _ => k))
  (at level 100, right associativity) : prog_scope.
Open Scope prog_scope.

(** ** The store and the interpreter *)

(** The store, and the log of the providers that were asked to produce. *)
Record state : Type := State {
  heap : gmap positive object;
  produced : list value
}.

Inductive outcome (A : Type) : Type :=
| Ok (a : A)
| Raised (e : exn)
| Stuck.

Arguments Ok {A} a.
Arguments Raised {A} e.
Arguments Stuck {A}.

(** Modelled from the spec: the provider abstraction
    ([injection.providers.base.BaseProvider]) is not part of the sources.
    The spec gives a provider one capability, "produce a T", and assumes
    nothing more about it; a [world] is any behaviour of that capability:
    given the provider and the store it answers with a value or an
    exception, and it may change the store. *)
Definition world : Type :=
  value -> gmap positive object -> outcome value * gmap positive object.

(** [object.__new__]: a fresh address holding an instance with an empty
    dictionary.  Objects are never deallocated in this model. *)
Definition alloc (h : gmap positive object) : loc := fresh (dom h).

Section Run.
Variable w : world.

Fixpoint run {A : Type} (m : prog A) (s : state) : outcome A * state :=
  match m with
  | Ret a => (Ok a, s)
  | Raise e => (Raised e, s)
  | New t k =>
      let l := alloc (heap s) in
      run (k l) (State (<[l := Object t ∅]> (heap s)) (produced s))
  | SetAttr l name v k =>
      match heap s !! l with
      | Some o =>
          run k (State (<[l := Object (ob_type o) (<[name := v]> (ob_dict o))]>
                          (heap s))
                       (produced s))
      | None => (Stuck, s)
      end
  | GetAttr l name k =>
      match heap s !! l with
      | Some o =>
          match ob_dict o !! name with
          | Some v => run (k v) s
          | None => (Raised (AttributeError name), s)
          end
      | None => (Stuck, s)
      end
  | Produce p k =>
      match w p (heap s) with
      | (Ok v, h) => run (k v) (State h (p :: produced s))
      | (Raised e, h) => (Raised e, State h (p :: produced s))
      | (Stuck, h) => (Stuck, State h (p :: produced s))
      end
  end.
End Run.

(** ** provide.py *)

Module Provide.
(** [def __init__(self, provider): self.provider = provider] *)
Definition __init__ (self : loc) (provider : value) : prog unit :=
  SetAttr self "provider" provider (Ret tt).

(** [def __call__(self): return self] *)
Definition __call__ (self : loc) : prog loc :=
  Ret self.
End Provide.

(** [cls.__init__], looked up on the class. *)
Definition class_init (cls : class) : loc -> value -> prog unit :=
  match cls with
  | Provide => Provide.__init__
  end.

(** [cls(item)], that is [type.__call__(cls, item)]: allocate the instance,
    run the class's [__init__] on it, return the instance. *)
Definition type_call (cls : class) (item : value) : prog loc :=
  self <- New (Local cls) Ret ;;
  class_init cls self item ;;
  Ret self.

Module ClassGetItemMeta.
(** [def __getitem__(cls, item): return cls(item)] *)
Definition __getitem__ (cls : class) (item : value) : prog loc :=
  type_call cls item.
End ClassGetItemMeta.

(** ** Client-side operations *)

(** [Provide[p]]: subscripting the class goes through its metaclass. *)
Definition subscript (p : value) : prog loc :=
  ClassGetItemMeta.__getitem__ Provide p.

(** [Provide(p)]: calling the class directly. *)
Definition construct (p : value) : prog loc :=
  type_call Provide p.

(** [m()] for a marker [m]: the call resolves to [Provide.__call__]. *)
Definition invoke (m : loc) : prog loc :=
  Provide.__call__ m.

(** [m.provider]: reading the attribute back. *)
Definition read_provider (m : loc) : prog value :=
  GetAttr m "provider" Ret.

(** [a is b] on references. *)
Definition py_is (a b : loc) : bool := bool_decide (a = b).

(** [m()] repeated: [m()()...()], [n] calls in a row. *)
Fixpoint invoke_n (n : nat) (m : loc) : prog loc :=
  match n with
  | O => Ret m
  | S n' => r <- invoke m ;; invoke_n n' r
  end.

(** The operations this module offers to its callers. *)
Inductive op : Type :=
| Subscript (p : value)
| Construct (p : value)
| Invoke (m : loc).

Definition exec (o : op) : prog loc :=
  match o with
  | Subscript p => subscript p
  | Construct p => construct p
  | Invoke m => invoke m
  end.

Fixpoint exec_all (os : list op) : prog unit :=
  match os with
  | [] => Ret tt
  | o :: os' => exec o ;; exec_all os'
  end.

(** The object a marker for [p] is: an instance of [Provide] whose
    dictionary holds [provider] and nothing else. *)
Definition marker_of (p : value) : object :=
  Object (Local Provide) {["provider" := p]}.

(** A program that never asks a provider to produce. *)
Inductive quiet {A : Type} : prog A -> Prop :=
| quiet_Ret a : quiet (Ret a)
| quiet_Raise e : quiet (Raise e)
| quiet_New t k : (forall l, quiet (k l)) -> quiet (New t k)
| quiet_SetAttr l name v k : quiet k -> quiet (SetAttr l name v k)
| quiet_GetAttr l name k : (forall v, quiet (k v)) -> quiet (GetAttr l name k).

(** Modelled from the spec: the stub provider of the end-to-end scenario,
    whose produce capability returns the integer 42. *)
Definition stub_world : world := fun _ h => (Ok (VInt 42), h).

(** Modelled from the spec: the injection-resolution framework is not part
    of the sources.  The spec has it replace a marker by the value its
    provider produces: read the provider and ask it to produce. *)
Definition resolve (m : loc) : prog value :=
  p <- read_provider m ;; Produce p Ret.

(** ** A concrete scene: the stub provider and its marker *)

(** A store holding one foreign object, the stub provider [P]. *)
Definition stub_provider : value := VRef 1.

Definition stub_state : state :=
  State {[1%positive := Object (Foreign "StubProvider") ∅]} [].

(** The same store after [Provide[P]]. *)
Definition stub_state_marked : state :=
  State (<[2%positive := marker_of stub_provider]> (heap stub_state)) [].

(** ... and after a second [Provide[P]]. *)
Definition stub_state_marked_twice : state :=
  State (<[3%positive := marker_of stub_provider]> (heap stub_state_marked)) [].

(** A second store for the stub scene: the same address holds a provider of
    another class, with state of its own. *)
Definition other_heap : gmap positive object :=
  {[1%positive := Object (Foreign "CountingProvider") {["calls" := VInt 0]}]}.

(** A provider behaviour that always raises. *)
Definition failing_world : world :=
  fun _ h => (Raised (ForeignError "ProviderError"), h).

(** ** Further client-side programs *)

(** [[Provide[p] for p in ps]]: one marker per provider, in order. *)
Fixpoint subscript_all (ps : list value) : prog (list loc) :=
  match ps with
  | [] => Ret []
  | p :: ps' => m <- subscript p ;; ms <- subscript_all ps' ;; Ret (m :: ms)
  end.

(** [Provide[Provide[p]]] with both markers read back: the module does not
    look at what it wraps, so a marker is accepted as a provider. *)
Definition nest (p : value) : prog (loc * loc * value * value) :=
  inner <- subscript p ;;
  outer <- subscript (VRef inner) ;;
  a <- read_provider outer ;;
  b <- read_provider inner ;;
  Ret (inner, outer, a, b).


(** [Provide[p]()...().provider]: build, call [n] times, read back. *)
Definition build_call_read (p : value) (n : nat) : prog value :=
  m <- subscript p ;; r <- invoke_n n m ;; read_provider r.

(** The number of operations in a sequence that instantiate [Provide]. *)
Fixpoint constructions (os : list op) : nat :=
  match os with
  | [] => 0
  | Invoke _ :: os' => constructions os'
  | _ :: os' => S (constructions os')
  end.

(** [isinstance(o, Provide)] *)
Definition is_marker (o : object) : bool :=
  match ob_type o with
  | Local Provide => true
  | Foreign _ => false
  end.

(** An object is initialised when, if it is a [Provide], it has the
    attribute [provider]. *)
Definition initialised (o : object) : bool :=
  negb (is_marker o) || bool_decide (is_Some (ob_dict o !! "provider")).

(** Every [Provide] of the store went through [__init__]. *)
Definition markers_initialised (h : gmap positive object) : Prop :=
  map_Forall (fun _ o => initialised o = true) h.


(** ** The interpreter and sequencing *)

Section Facts.
Variable w : world.

Lemma run_bind {A B : Type} (m : prog A) (f : A -> prog B) (s : state) :
  run w (bind m f) s =
  match run w m s with
  | (Ok a, s') => run w (f a) s'
  | (Raised e, s') => (Raised e, s')
  | (Stuck, s') => (Stuck, s')
  end.
Proof.
  revert s. induction m as [a|e|t k IH|l name v k IH|l name k IH|p k IH];
    intros s; simpl; try done.
  - destruct (heap s !! l); [apply IH | done].
  - destruct (heap s !! l) as [o|]; [|done].
    destruct (ob_dict o !! name); [apply IH | done].
  - destruct (w p (heap s)) as [[v|e|] h]; [apply IH | done | done].
Qed.

(** Allocation returns an address that is not in use. *)
Lemma alloc_fresh (h : gmap positive object) : h !! alloc h = None.
Proof. unfold alloc. apply (not_elem_of_dom (D := gset positive)), is_fresh. Qed.

Lemma alloc_ne (h : gmap positive object) (l : loc) (o : object) :
  h !! l = Some o -> l ≠ alloc h.
Proof. intros Hl ->. rewrite alloc_fresh in Hl. discriminate. Qed.

(** Instantiating [Provide]: one new object, the marker for [p]. *)
Lemma run_type_call (p : value) (s : state) :
  run w (type_call Provide p) s =
  (Ok (alloc (heap s)),
   State (<[alloc (heap s) := marker_of p]> (heap s)) (produced s)).
Proof.
  unfold type_call. simpl. rewrite lookup_insert_eq. simpl.
  rewrite insert_insert_eq, insert_empty. reflexivity.
Qed.

Lemma run_subscript (p : value) (s : state) :
  run w (subscript p) s =
  (Ok (alloc (heap s)),
   State (<[alloc (heap s) := marker_of p]> (heap s)) (produced s)).
Proof. apply run_type_call. Qed.

Lemma run_construct (p : value) (s : state) :
  run w (construct p) s =
  (Ok (alloc (heap s)),
   State (<[alloc (heap s) := marker_of p]> (heap s)) (produced s)).
Proof. apply run_type_call. Qed.

Lemma run_invoke (m : loc) (s : state) : run w (invoke m) s = (Ok m, s).
Proof. reflexivity. Qed.

Lemma run_invoke_n (n : nat) (m : loc) (s : state) :
  run w (invoke_n n m) s = (Ok m, s).
Proof. induction n as [|n IH]; simpl; [reflexivity | apply IH]. Qed.

(** Reading [provider] from an object that has it. *)
Lemma run_read_provider (m : loc) (o : object) (p : value) (s : state) :
  heap s !! m = Some o -> ob_dict o !! "provider" = Some p ->
  run w (read_provider m) s = (Ok p, s).
Proof. intros Hm Hp. unfold read_provider. simpl. by rewrite Hm, Hp. Qed.

Lemma marker_of_provider (p : value) :
  ob_dict (marker_of p) !! "provider" = Some p.
Proof. apply lookup_singleton_eq. Qed.

(** Every operation succeeds, keeps the log, and leaves the objects that
    exist where and as they are. *)
Lemma exec_ok (o : op) (s : state) :
  exists (r : loc) (s' : state),
    run w (exec o) s = (Ok r, s') /\
    produced s' = produced s /\
    forall l x, heap s !! l = Some x -> heap s' !! l = Some x.
Proof.
  destruct o as [p|p|m]; cbn [exec].
  - rewrite run_subscript. do 2 eexists. split; [reflexivity|].
    split; [reflexivity|]. simpl. intros l x Hl.
    rewrite lookup_insert_ne; [done | symmetry; by eapply alloc_ne].
  - rewrite run_construct. do 2 eexists. split; [reflexivity|].
    split; [reflexivity|]. simpl. intros l x Hl.
    rewrite lookup_insert_ne; [done | symmetry; by eapply alloc_ne].
  - rewrite run_invoke. by do 2 eexists.
Qed.

Lemma exec_all_ok (os : list op) (s : state) :
  exists s' : state,
    run w (exec_all os) s = (Ok tt, s') /\
    produced s' = produced s /\
    forall l x, heap s !! l = Some x -> heap s' !! l = Some x.
Proof.
  revert s. induction os as [|o os IH]; intros s; cbn [exec_all].
  - by exists s.
  - rewrite run_bind.
    destruct (exec_ok o s) as (r & s1 & -> & Hlog1 & Hkeep1).
    destruct (IH s1) as (s2 & -> & Hlog2 & Hkeep2).
    exists s2. split; [reflexivity|]. split; [congruence | auto].
Qed.
End Facts.

(** ** Programs that never ask a provider to produce *)

Lemma quiet_type_call (cls : class) (p : value) : quiet (type_call cls p).
Proof.
  destruct cls. unfold type_call. simpl. repeat constructor.
Qed.

(** A quiet program runs the same way whatever the providers would do. *)
Lemma quiet_run_world {A : Type} (w1 w2 : world) (m : prog A) (s : state) :
  quiet m -> run w1 m s = run w2 m s.
Proof.
  intros Hm. revert s. induction Hm as [a|e|t k _ IH|l name v k _ IH|l name k _ IH];
    intros s; simpl; try done.
  - destruct (heap s !! l); [apply IH | done].
  - destruct (heap s !! l) as [o|]; [|done].
    destruct (ob_dict o !! name); [apply IH | done].
Qed.

(** A quiet program leaves the log of produce requests as it was. *)
Lemma quiet_run_produced {A : Type} (w : world) (m : prog A) (s : state) :
  quiet m -> produced (snd (run w m s)) = produced s.
Proof.
  intros Hm. revert s. induction Hm as [a|e|t k _ IH|l name v k _ IH|l name k _ IH];
    intros s; simpl; try done.
  - by rewrite IH.
  - destruct (heap s !! l); [by rewrite IH | done].
  - destruct (heap s !! l) as [o|]; [|done].
    destruct (ob_dict o !! name); [by rewrite IH | done].
Qed.

(** ** The stub scene, end to end *)

(** The end-to-end scenario: with a stub provider producing 42, [m = Provide(P)]
    and [m()] give the marker; 42 only appears once the provider is asked. *)
Example scenario_stub_42 :
  run stub_world (m <- construct stub_provider ;; r <- invoke m ;; Ret (m, r))
      stub_state = (Ok (2%positive, 2%positive), stub_state_marked) /\
  run stub_world (resolve 2%positive) stub_state_marked =
    (Ok (VInt 42), State (heap stub_state_marked) [stub_provider]).
Proof. split; reflexivity. Qed.

(** ** The claims *)

(** C1: for every Marker [m] constructed from any provider, the
    zero-argument call [m()] returns [m] itself, the identical instance:
    [m() is m]. *)
Theorem invoke_returns_marker_itself
    (w : world) (s s' : state) (p : value) (m : loc) :
  run w (subscript p) s = (Ok m, s') ->
  fst (run w (invoke m) s') = Ok m /\
  fst (run w (r <- invoke m ;; Ret (py_is r m)) s') = Ok true.
Proof.
  intros _. split; [reflexivity|].
  rewrite run_bind, run_invoke. simpl. unfold py_is.
  by rewrite bool_decide_eq_true_2.
Qed.

Lemma invoke_returns_marker_itself_witness :
  run stub_world (subscript stub_provider) stub_state =
    (Ok 2%positive, stub_state_marked) /\
  fst (run stub_world (invoke 2%positive) stub_state_marked) = Ok 2%positive /\
  fst (run stub_world (r <- invoke 2%positive ;; Ret (py_is r 2%positive))
         stub_state_marked) = Ok true.
Proof.
  split; [reflexivity|].
  apply (invoke_returns_marker_itself stub_world stub_state stub_state_marked
           stub_provider 2%positive).
  reflexivity.
Defined.

(** C2: for every provider value [p], [Provide[p]] constructs and returns a
    new instance of [Provide] that holds [p]. *)
Theorem subscript_yields_marker_wrapping (w : world) (s : state) (p : value) :
  exists (m : loc) (s' : state) (o : object),
    run w (subscript p) s = (Ok m, s') /\
    heap s !! m = None /\
    heap s' !! m = Some o /\
    ob_type o = Local Provide /\
    ob_dict o !! "provider" = Some p.
Proof.
  exists (alloc (heap s)). eexists. exists (marker_of p).
  split; [apply run_subscript|]. split; [apply alloc_fresh|].
  split; [apply lookup_insert_eq|]. split; [reflexivity|].
  apply marker_of_provider.
Qed.

(** C3: a Marker's wrapped provider never changes after construction: the
    marker built from [p] holds [provider = p] and nothing else, and every
    sequence of operations of the module leaves it, like every object of the
    store, exactly as it was. *)
Theorem marker_immutable
    (w : world) (s s1 : state) (p : value) (m : loc) (os : list op) :
  run w (subscript p) s = (Ok m, s1) ->
  heap s1 !! m = Some (marker_of p) /\
  ob_dict (marker_of p) = {["provider" := p]} /\
  heap (snd (run w (exec_all os) s1)) !! m = Some (marker_of p) /\
  (forall l x, heap s1 !! l = Some x ->
               heap (snd (run w (exec_all os) s1)) !! l = Some x) /\
  run w (read_provider m) (snd (run w (exec_all os) s1)) =
    (Ok p, snd (run w (exec_all os) s1)).
Proof.
  rewrite run_subscript. intros [= <- <-]. simpl.
  destruct (exec_all_ok w os
              (State (<[alloc (heap s) := marker_of p]> (heap s)) (produced s)))
    as (s2 & Hrun & _ & Hkeep).
  rewrite Hrun. simpl in *.
  assert (Hm : heap s2 !! alloc (heap s) = Some (marker_of p))
    by apply Hkeep, lookup_insert_eq.
  split; [apply lookup_insert_eq|]. split; [reflexivity|].
  split; [exact Hm|]. split; [exact Hkeep|].
  eapply (run_read_provider w); [exact Hm | apply marker_of_provider].
Qed.

Lemma marker_immutable_witness :
  let os := [Invoke 2%positive; Subscript (VInt 7);
             Construct stub_provider; Invoke 2%positive] in
  let s2 := snd (run stub_world (exec_all os) stub_state_marked) in
  run stub_world (subscript stub_provider) stub_state =
    (Ok 2%positive, stub_state_marked) /\
  heap stub_state_marked !! 2%positive = Some (marker_of stub_provider) /\
  ob_dict (marker_of stub_provider) = {["provider" := stub_provider]} /\
  heap s2 !! 2%positive = Some (marker_of stub_provider) /\
  (forall l x, heap stub_state_marked !! l = Some x -> heap s2 !! l = Some x) /\
  run stub_world (read_provider 2%positive) s2 = (Ok stub_provider, s2).
Proof.
  intros os s2. split; [reflexivity|].
  exact (marker_immutable stub_world stub_state stub_state_marked stub_provider
           2%positive os eq_refl).
Defined.

(** C4: for every provider [p], constructing a Marker from [p] and reading
    back its wrapped reference returns exactly [p]. *)
Theorem read_back_provider (w : world) (s : state) (p : value) :
  fst (run w (m <- subscript p ;; read_provider m) s) = Ok p /\
  fst (run w (m <- construct p ;; read_provider m) s) = Ok p.
Proof.
  rewrite !run_bind, run_subscript, run_construct.
  erewrite (run_read_provider w);
    [done | apply lookup_insert_eq | apply marker_of_provider].
Qed.

(** C5: Marker construction never raises or fails, whatever value is passed
    as the provider. *)
Theorem construction_never_fails (w : world) (s : state) (p : value) :
  (exists (m : loc) (s' : state), run w (subscript p) s = (Ok m, s')) /\
  (exists (m : loc) (s' : state), run w (construct p) s = (Ok m, s')).
Proof.
  split; do 2 eexists; [apply run_subscript | apply run_construct].
Qed.

(** C6: Marker invocation is idempotent: invoking twice gives what invoking
    once gives, and any number of invocations in a row returns the same
    Marker. *)
Theorem invoke_idempotent (w : world) (s : state) (m : loc) (n : nat) :
  run w (r <- invoke m ;; invoke r) s = run w (invoke m) s /\
  run w (invoke_n 2 m) s = run w (invoke_n 1 m) s /\
  run w (invoke_n n m) s = (Ok m, s).
Proof.
  split; [reflexivity|]. split; [reflexivity|]. apply run_invoke_n.
Qed.

(** C7: Marker invocation has no side effects and raises no exception: the
    call leaves the marker's wrapped provider and all the rest of the program
    state unchanged. *)
Theorem invoke_no_side_effects (w : world) (s : state) (m : loc) :
  snd (run w (invoke m) s) = s /\
  heap (snd (run w (invoke m) s)) !! m = heap s !! m /\
  (forall e, fst (run w (invoke m) s) ≠ Raised e) /\
  fst (run w (invoke m) s) ≠ Stuck.
Proof. rewrite run_invoke. simpl. by repeat split. Qed.

(** C8: the Markers constructed from two distinct providers [p1] and [p2]
    are distinct objects and wrap distinct references: the first wraps [p1],
    the second wraps [p2]. *)
Theorem distinct_providers_distinct_markers
    (w : world) (s s1 s1' s2 : state) (p1 p2 : value) (m1 m2 : loc)
    (os : list op) :
  p1 ≠ p2 ->
  run w (subscript p1) s = (Ok m1, s1) ->
  run w (exec_all os) s1 = (Ok tt, s1') ->
  run w (subscript p2) s1' = (Ok m2, s2) ->
  m1 ≠ m2 /\ py_is m1 m2 = false /\
  exists v1 v2,
    run w (read_provider m1) s2 = (Ok v1, s2) /\
    run w (read_provider m2) s2 = (Ok v2, s2) /\
    v1 = p1 /\ v2 = p2 /\ v1 ≠ v2.
Proof.
  intros Hne. rewrite !run_subscript. intros [= <- <-] Hos [= <- <-].
  destruct (exec_all_ok w os
              (State (<[alloc (heap s) := marker_of p1]> (heap s)) (produced s)))
    as (s' & Hrun & _ & Hkeep).
  rewrite Hrun in Hos. injection Hos as <-. simpl in Hkeep.
  assert (Hm1 : heap s' !! alloc (heap s) = Some (marker_of p1))
    by apply Hkeep, lookup_insert_eq.
  assert (Hd : alloc (heap s) ≠ alloc (heap s')) by (by eapply alloc_ne).
  split; [exact Hd|]. split; [by apply bool_decide_eq_false_2|].
  exists p1, p2. split.
  { eapply (run_read_provider w); [|apply marker_of_provider].
    simpl. rewrite lookup_insert_ne; [exact Hm1 | done]. }
  split; [|done].
  eapply (run_read_provider w); [|apply marker_of_provider].
  simpl. apply lookup_insert_eq.
Qed.

Lemma distinct_providers_distinct_markers_witness :
  let s2 := State (<[3%positive := marker_of (VInt 7)]> (heap stub_state_marked)) [] in
  stub_provider ≠ VInt 7 /\
  run stub_world (subscript stub_provider) stub_state =
    (Ok 2%positive, stub_state_marked) /\
  run stub_world (exec_all [Invoke 2%positive]) stub_state_marked =
    (Ok tt, stub_state_marked) /\
  run stub_world (subscript (VInt 7)) stub_state_marked = (Ok 3%positive, s2) /\
  2%positive ≠ 3%positive /\ py_is 2%positive 3%positive = false /\
  exists v1 v2,
    run stub_world (read_provider 2%positive) s2 = (Ok v1, s2) /\
    run stub_world (read_provider 3%positive) s2 = (Ok v2, s2) /\
    v1 = stub_provider /\ v2 = VInt 7 /\ v1 ≠ v2.
Proof.
  intros s2.
  assert (Hne : stub_provider ≠ VInt 7) by discriminate.
  split; [exact Hne|]. do 3 (split; [reflexivity|]).
  exact (distinct_providers_distinct_markers stub_world stub_state
           stub_state_marked stub_state_marked s2
           stub_provider (VInt 7) 2%positive 3%positive [Invoke 2%positive]
           Hne eq_refl eq_refl eq_refl).
Defined.

(** C9: neither construction nor invocation ever asks the wrapped provider
    to produce, and what they return does not depend on how providers
    behave: under any two behaviours, in any two stores with the same
    addresses in use, and for any two providers, construction returns the
    same reference and adds the same object apart from the reference it
    stores, and invocation returns the same marker. *)
Theorem provider_never_consulted
    (w1 w2 : world) (h1 h2 : gmap positive object) (log : list value)
    (p1 p2 : value) (m : loc) :
  dom h1 = dom h2 ->
  (quiet (subscript p1) /\ quiet (construct p1) /\ quiet (invoke m)) /\
  (produced (snd (run w1 (subscript p1) (State h1 log))) = log /\
   produced (snd (run w1 (construct p1) (State h1 log))) = log /\
   produced (snd (run w1 (invoke m) (State h1 log))) = log) /\
  (run w1 (subscript p1) (State h1 log) = run w2 (subscript p1) (State h1 log) /\
   run w1 (construct p1) (State h1 log) = run w2 (construct p1) (State h1 log) /\
   run w1 (invoke m) (State h1 log) = run w2 (invoke m) (State h1 log)) /\
  (fst (run w1 (subscript p1) (State h1 log)) =
     fst (run w2 (subscript p2) (State h2 log)) /\
   heap (snd (run w1 (subscript p1) (State h1 log))) =
     <[alloc h1 := marker_of p1]> h1 /\
   heap (snd (run w2 (subscript p2) (State h2 log))) =
     <[alloc h1 := marker_of p2]> h2 /\
   fst (run w1 (invoke m) (State h1 log)) =
     fst (run w2 (invoke m) (State h2 log))).
Proof.
  intros Hdom.
  assert (Halloc : alloc h2 = alloc h1) by (unfold alloc; by rewrite Hdom).
  split.
  { split; [apply quiet_type_call|]. split; [apply quiet_type_call | constructor]. }
  split.
  { split; [|split]; apply quiet_run_produced.
    - apply quiet_type_call.
    - apply quiet_type_call.
    - constructor. }
  split.
  { split; [|split]; apply quiet_run_world.
    - apply quiet_type_call.
    - apply quiet_type_call.
    - constructor. }
  rewrite !run_subscript, !run_invoke. simpl. rewrite Halloc. done.
Qed.

Lemma provider_never_consulted_witness :
  dom (heap stub_state) = dom other_heap /\
  fst (run stub_world (subscript stub_provider) stub_state) =
    fst (run failing_world (subscript (VInt 7)) (State other_heap [])) /\
  run stub_world (subscript stub_provider) stub_state =
    run failing_world (subscript stub_provider) stub_state.
Proof.
  assert (Hdom : dom (heap stub_state) = dom other_heap) by reflexivity.
  split; [exact Hdom|].
  pose proof (provider_never_consulted stub_world failing_world
                (heap stub_state) other_heap [] stub_provider (VInt 7)
                2%positive Hdom) as (_ & _ & (Hw & _) & (Hfst & _)).
  split; [exact Hfst | exact Hw].
Defined.

(** C10: every construction yields a fresh Marker: two constructions, even
    from the same provider [p], give two distinct objects, each at an
    address that was not in use before. *)
Theorem every_construction_is_fresh
    (w : world) (s s1 s1' s2 : state) (p : value) (m1 m2 : loc)
    (os : list op) :
  run w (subscript p) s = (Ok m1, s1) ->
  run w (exec_all os) s1 = (Ok tt, s1') ->
  run w (subscript p) s1' = (Ok m2, s2) ->
  heap s !! m1 = None /\ heap s1' !! m2 = None /\
  m1 ≠ m2 /\ py_is m1 m2 = false /\
  heap s2 !! m1 = Some (marker_of p) /\ heap s2 !! m2 = Some (marker_of p).
Proof.
  rewrite !run_subscript. intros [= <- <-] Hos [= <- <-].
  destruct (exec_all_ok w os
              (State (<[alloc (heap s) := marker_of p]> (heap s)) (produced s)))
    as (s' & Hrun & _ & Hkeep).
  rewrite Hrun in Hos. injection Hos as <-. simpl in Hkeep.
  assert (Hm1 : heap s' !! alloc (heap s) = Some (marker_of p))
    by apply Hkeep, lookup_insert_eq.
  assert (Hd : alloc (heap s) ≠ alloc (heap s')) by (by eapply alloc_ne).
  split; [apply alloc_fresh|]. split; [apply alloc_fresh|].
  split; [exact Hd|]. split; [by apply bool_decide_eq_false_2|].
  simpl. split; [|apply lookup_insert_eq].
  rewrite lookup_insert_ne; [exact Hm1 | done].
Qed.

Lemma every_construction_is_fresh_witness :
  run stub_world (subscript stub_provider) stub_state =
    (Ok 2%positive, stub_state_marked) /\
  run stub_world (exec_all []) stub_state_marked = (Ok tt, stub_state_marked) /\
  run stub_world (subscript stub_provider) stub_state_marked =
    (Ok 3%positive, stub_state_marked_twice) /\
  heap stub_state !! 2%positive = None /\
  heap stub_state_marked !! 3%positive = None /\
  2%positive ≠ 3%positive /\ py_is 2%positive 3%positive = false /\
  heap stub_state_marked_twice !! 2%positive = Some (marker_of stub_provider) /\
  heap stub_state_marked_twice !! 3%positive = Some (marker_of stub_provider).
Proof.
  do 3 (split; [reflexivity|]).
  exact (every_construction_is_fresh stub_world stub_state stub_state_marked
           stub_state_marked stub_state_marked_twice stub_provider
           2%positive 3%positive [] eq_refl eq_refl eq_refl).
Defined.

(** ** Beyond the claims: helper facts *)

Lemma quiet_bind {A B : Type} (m : prog A) (f : A -> prog B) :
  quiet m -> (forall a, quiet (f a)) -> quiet (bind m f).
Proof.
  intros Hm Hf. induction Hm; simpl; try constructor; auto.
Qed.

Lemma quiet_exec (o : op) : quiet (exec o).
Proof.
  destruct o; cbn [exec];
    [apply quiet_type_call | apply quiet_type_call | constructor].
Qed.

Lemma quiet_exec_all (os : list op) : quiet (exec_all os).
Proof.
  induction os as [|o os IH]; cbn [exec_all]; [constructor|].
  apply quiet_bind; [apply quiet_exec | intros _; exact IH].
Qed.

(** What one operation does to the store: nothing, or one more marker at
    an address that was free. *)
Lemma exec_store (w : world) (o : op) (s : state) :
  snd (run w (exec o) s) = s /\ constructions [o] = 0 \/
  exists p, heap s !! alloc (heap s) = None /\ constructions [o] = 1 /\
    snd (run w (exec o) s) =
      State (<[alloc (heap s) := marker_of p]> (heap s)) (produced s).
Proof.
  destruct o as [p|p|m]; cbn [exec].
  - right. exists p. rewrite run_subscript. by split; [apply alloc_fresh|].
  - right. exists p. rewrite run_construct. by split; [apply alloc_fresh|].
  - left. by rewrite run_invoke.
Qed.

Lemma run_exec_all_cons (w : world) (o : op) (os : list op) (s : state) :
  snd (run w (exec_all (o :: os)) s) =
  snd (run w (exec_all os) (snd (run w (exec o) s))).
Proof.
  cbn [exec_all]. rewrite run_bind.
  destruct (exec_ok w o s) as (r & s1 & -> & _). reflexivity.
Qed.

(** Whatever is in the store after a sequence of operations was there
    before, unchanged, or is a marker. *)
Lemma exec_all_origin (w : world) (os : list op) (s : state) (l : loc) (x : object) :
  heap (snd (run w (exec_all os) s)) !! l = Some x ->
  heap s !! l = Some x \/ exists p, x = marker_of p.
Proof.
  revert s. induction os as [|o os IH]; intros s; [by left|].
  rewrite run_exec_all_cons. intros Hl.
  destruct (IH _ Hl) as [Hl1|Hl1]; [|by right].
  destruct (exec_store w o s) as [[Heq _]|(p & _ & _ & Heq)];
    rewrite Heq in Hl1; [by left|]. simpl in Hl1.
  destruct (decide (alloc (heap s) = l)) as [<-|Hne].
  - rewrite lookup_insert_eq in Hl1. right. exists p. congruence.
  - rewrite lookup_insert_ne in Hl1 by done. by left.
Qed.

Lemma marker_of_initialised (p : value) : initialised (marker_of p) = true.
Proof.
  unfold initialised. simpl. apply bool_decide_eq_true_2.
  rewrite lookup_singleton_eq. by eexists.
Qed.


(** ** Beyond the claims *)





(** X3: nothing is validated or unwrapped, so markers nest:
    [Provide[Provide[p]]] gives two distinct new objects, the outer one
    wrapping the inner marker itself and the inner one still wrapping [p]. *)
Theorem markers_nest (w : world) (s : state) (p : value) :
  exists (inner outer : loc) (s' : state),
    run w (nest p) s = (Ok (inner, outer, VRef inner, p), s') /\
    inner ≠ outer /\
    heap s !! inner = None /\ heap s !! outer = None /\
    heap s' !! inner = Some (marker_of p) /\
    heap s' !! outer = Some (marker_of (VRef inner)).
Proof.
  set (i := alloc (heap s)).
  set (h1 := <[i := marker_of p]> (heap s)).
  set (o := alloc h1).
  set (h2 := <[o := marker_of (VRef i)]> h1).
  assert (Hio : i ≠ o) by (eapply alloc_ne; apply lookup_insert_eq).
  assert (Hi : h2 !! i = Some (marker_of p)).
  { unfold h2. rewrite lookup_insert_ne by done. apply lookup_insert_eq. }
  assert (Ho : h2 !! o = Some (marker_of (VRef i))) by apply lookup_insert_eq.
  exists i, o, (State h2 (produced s)).
  split.
  { unfold nest. rewrite run_bind, run_subscript. fold i h1.
    rewrite run_bind, run_subscript. simpl heap. simpl produced. fold o h2.
    rewrite run_bind.
    rewrite (run_read_provider w o _ (VRef i) (State h2 (produced s)) Ho
               (marker_of_provider _)).
    rewrite run_bind.
    rewrite (run_read_provider w i _ p (State h2 (produced s)) Hi
               (marker_of_provider _)).
    reflexivity. }
  split; [exact Hio|]. split; [apply alloc_fresh|].
  split; [|by split].
  assert (Hfresh : h1 !! o = None) by apply alloc_fresh.
  unfold h1 in Hfresh. rewrite lookup_insert_ne in Hfresh by done. exact Hfresh.
Qed.

(** X4: building a marker, calling it any number of times and reading the
    provider off the result gives back the provider the marker was built
    from: [Provide[p]()...().provider] is [p]. *)
Theorem build_call_read_returns_provider
    (w : world) (s : state) (p : value) (n : nat) :
  run w (build_call_read p n) s =
    (Ok p, State (<[alloc (heap s) := marker_of p]> (heap s)) (produced s)).
Proof.
  unfold build_call_read. rewrite run_bind, run_subscript.
  rewrite run_bind, run_invoke_n.
  apply (run_read_provider w _ (marker_of p));
    [apply lookup_insert_eq | apply marker_of_provider].
Qed.

(** X5: building one marker per provider of a list gives as many markers as
    providers, pairwise distinct even when providers repeat, all at
    addresses that were free, the i-th wrapping the i-th provider; what was
    in the store stays as it was and no provider is asked. *)
Theorem subscript_all_distinct (w : world) (ps : list value) (s : state) :
  exists (ms : list loc) (s' : state),
    run w (subscript_all ps) s = (Ok ms, s') /\
    length ms = length ps /\
    NoDup ms /\
    (forall m, m ∈ ms -> heap s !! m = None) /\
    (forall i m p, ms !! i = Some m -> ps !! i = Some p ->
                   heap s' !! m = Some (marker_of p)) /\
    (forall l x, heap s !! l = Some x -> heap s' !! l = Some x) /\
    produced s' = produced s.
Proof.
  revert s. induction ps as [|p ps IH]; intros s.
  - exists [], s. simpl. split; [done|]. split; [done|].
    split; [constructor|]. split; [by intros m ?%elem_of_nil|].
    split; [by intros [] ? ?|done].
  - cbn [subscript_all]. rewrite run_bind, run_subscript.
    set (m := alloc (heap s)).
    set (s1 := State (<[m := marker_of p]> (heap s)) (produced s)).
    destruct (IH s1) as (ms & s' & Hrun & Hlen & Hnd & Hnew & Hwrap & Hkeep & Hlog).
    rewrite run_bind, Hrun. simpl run.
    exists (m :: ms), s'. split; [reflexivity|].
    split; [simpl; by rewrite Hlen|].
    assert (Hm : heap s1 !! m = Some (marker_of p)) by apply lookup_insert_eq.
    split.
    { constructor; [|exact Hnd]. intros Hin. apply Hnew in Hin. congruence. }
    split.
    { intros m' [->|Hin]%elem_of_cons; [apply alloc_fresh|].
      apply Hnew in Hin. simpl in Hin.
      by apply lookup_insert_None in Hin as [? _]. }
    split.
    { intros [|i] m' p' Hm' Hp'; simpl in *.
      - injection Hm' as <-. injection Hp' as <-. by apply Hkeep.
      - by eapply Hwrap. }
    split; [|exact Hlog].
    intros l x Hl. apply Hkeep. simpl.
    rewrite lookup_insert_ne; [done | symmetry; by eapply alloc_ne].
Qed.



(** X7: no sequence of operations ever asks a provider to produce: the
    sequence runs to its end, the produce log is what it was, and the run is
    the same under any two provider behaviours. *)
Theorem sequences_never_consult (w1 w2 : world) (os : list op) (s : state) :
  quiet (exec_all os) /\
  fst (run w1 (exec_all os) s) = Ok tt /\
  produced (snd (run w1 (exec_all os) s)) = produced s /\
  run w1 (exec_all os) s = run w2 (exec_all os) s.
Proof.
  split; [apply quiet_exec_all|].
  destruct (exec_all_ok w1 os s) as (s' & Hrun & Hlog & _).
  split; [by rewrite Hrun|]. split; [by rewrite Hrun|].
  apply quiet_run_world, quiet_exec_all.
Qed.

(** X8: if every [Provide] of the store has its [provider] attribute, then
    so it is after any sequence of operations, and reading [provider] from
    any [Provide] of the resulting store returns a value instead of raising
    [AttributeError]. *)
Theorem markers_stay_initialised (w : world) (os : list op) (s : state) :
  markers_initialised (heap s) ->
  markers_initialised (heap (snd (run w (exec_all os) s))) /\
  forall m o,
    heap (snd (run w (exec_all os) s)) !! m = Some o ->
    is_marker o = true ->
    exists v, run w (read_provider m) (snd (run w (exec_all os) s)) =
                (Ok v, snd (run w (exec_all os) s)).
Proof.
  intros Hwf.
  assert (Hwf' : markers_initialised (heap (snd (run w (exec_all os) s)))).
  { intros l x Hl. apply exec_all_origin in Hl as [Hl|[p ->]].
    - by apply (Hwf l x).
    - apply marker_of_initialised. }
  split; [exact Hwf'|].
  intros m o Hm Hmark. specialize (Hwf' m o Hm). simpl in Hwf'.
  unfold initialised in Hwf'. rewrite Hmark in Hwf'. simpl in Hwf'.
  apply bool_decide_eq_true_1 in Hwf' as [v Hv].
  exists v. by apply (run_read_provider w m o).
Qed.

Lemma markers_stay_initialised_witness :
  let os := [Subscript (VInt 7); Invoke 2%positive; Construct stub_provider] in
  let s' := snd (run stub_world (exec_all os) stub_state_marked) in
  markers_initialised (heap stub_state_marked) /\
  markers_initialised (heap s') /\
  forall m o,
    heap s' !! m = Some o -> is_marker o = true ->
    exists v, run stub_world (read_provider m) s' = (Ok v, s').
Proof.
  intros os s'.
  assert (Hwf : markers_initialised (heap stub_state_marked)).
  { unfold markers_initialised. apply (bool_decide_unpack _). vm_compute. exact I. }
  split; [exact Hwf|].
  exact (markers_stay_initialised stub_world os stub_state_marked Hwf).
Defined.

(** X9: the operations never create, change or remove an object of a
    foreign class: after any sequence, the foreign objects of the store
    (the providers among them) are exactly those it had, as they were. *)
Theorem foreign_objects_untouched
    (w : world) (os : list op) (s : state)
    (l : loc) (q : string) (d : gmap string value) :
  heap (snd (run w (exec_all os) s)) !! l = Some (Object (Foreign q) d) <->
  heap s !! l = Some (Object (Foreign q) d).
Proof.
  split.
  - intros Hl. apply exec_all_origin in Hl as [Hl|[p Hp]]; [done|].
    discriminate Hp.
  - intros Hl. destruct (exec_all_ok w os s) as (s' & -> & _ & Hkeep).
    by apply Hkeep.
Qed.
